(** * fast_fm command handlers: a shallow embedding and its properties

    The development follows [rplugin/python3/fast_fm/commands.py].  Paths are
    Python [str] values and are modelled as [string]; path sets are Python
    [set]s and are modelled as [gset string].  The editor, the disk and the
    user are collaborators: every call to one of them is recorded in a call
    log, and what they answer is read from an explicit environment.  The
    handlers are embedded as the interpreter runs them: an [async def] that
    is called without [await] gives a coroutine object, not its result. *)

From Stdlib Require Import ZArith Ascii String.
From stdpp Require Import base gmap sets list strings.

Local Open Scope string_scope.
Local Open Scope list_scope.
Local Open Scope Z_scope.

(** ** [os.path] on POSIX paths *)

Module PosixPath.

Definition sep : ascii := "/"%char.

Definition is_sep (c : ascii) : bool := Ascii.eqb c sep.

Definition is_empty (s : string) : bool :=
  match s with EmptyString => true | String _ _ => false end.

(** [rsplit p] is [(p[:i], p[i:])] for [i = p.rfind("/") + 1]. *)
Fixpoint rsplit (p : string) : string * string :=
  match p with
  | EmptyString => (EmptyString, EmptyString)
  | String c r =>
      let '(h, t) := rsplit r in
      if is_empty h
      then if is_sep c then (String c EmptyString, t) else (EmptyString, String c t)
      else (String c h, t)
  end.

Fixpoint all_sep (s : string) : bool :=
  match s with
  | EmptyString => true
  | String c r => is_sep c && all_sep r
  end.

(** [s.rstrip("/")] *)
Fixpoint rstrip (s : string) : string :=
  match s with
  | EmptyString => EmptyString
  | String c r =>
      let r' := rstrip r in
      if is_empty r' && is_sep c then EmptyString else String c r'
  end.

Definition dirname (p : string) : string :=
  let head := fst (rsplit p) in
  if negb (is_empty head) && negb (all_sep head) then rstrip head else head.

Definition basename (p : string) : string := snd (rsplit p).

Definition startswith_sep (s : string) : bool :=
  match s with String c _ => is_sep c | EmptyString => false end.

Fixpoint endswith_sep (s : string) : bool :=
  match s with
  | EmptyString => false
  | String c EmptyString => is_sep c
  | String _ r => endswith_sep r
  end.

(** [join(a, b)] with exactly two components, as every call site has. *)
Definition join (a b : string) : string :=
  if startswith_sep b then b
  else if is_empty a || endswith_sep a then a +:+ b
  else a +:+ String sep b.

End PosixPath.

Import PosixPath.

(** ** Data model ([fast_fm/types.py]) *)

(** Modelled from the spec: the module [fast_fm/types.py] that declares
    [Mode], [Node] and [State] is missing; the fields are those of the data
    model. *)
Inductive Mode := FILE | FOLDER | LINK | EXECUTABLE.

#[global] Instance Mode_eq_dec : EqDecision Mode.
Proof. solve_decision. Defined.

#[global] Instance Mode_countable : Countable Mode.
Proof.
  refine (inj_countable'
    (fun m => match m with FILE => 0%nat | FOLDER => 1%nat | LINK => 2%nat | EXECUTABLE => 3%nat end)
    (fun n => match n with 0%nat => FILE | 1%nat => FOLDER | 2%nat => LINK | _ => EXECUTABLE end) _).
  intros []; reflexivity.
Defined.

#[warnings="-register-all"]
Inductive Node := mk_Node {
  path : string;
  mode : gset Mode;
  children : option (list (string * Node))
}.

Record State := mk_State {
  root : Node;
  index : gset string;
  selection : gset string;
  show_hidden : bool;
  follow : bool;
  rendered : list string;
  flat_index : list Node
}.

Record Settings := mk_Settings {
  show_hidden_default : bool;
  folders_first : bool;
  use_trash : bool
}.

(** ** Collaborators *)

Inductive exn :=
| OSError (what : string)
| AttributeError
| TypeError.

(** The verbs of [fast_fm/fs.py] that touch the disk. *)
Inductive fs_call :=
| fs_new (name : string)
| fs_rename (src dst : string)
| fs_cut (src dst : string)
| fs_copy (src dst : string)
| fs_remove (paths : list string).

(** Keyword arguments of [forward]; [None] is an omitted keyword. *)
Record forward_kw := mk_kw {
  kw_index : option (gset string);
  kw_paths : option (gset string);
  kw_selection : option (gset string);
  kw_show_hidden : option bool;
  kw_follow : option bool
}.

Definition no_kw : forward_kw := mk_kw None None None None None.

Inductive event :=
| ev_fs (c : fs_call)
| ev_print (msg : string) (error : bool)
| ev_input (prompt : string) (default : option string)
| ev_confirm (msg choices : string) (default : Z)
| ev_forward (kw : forward_kw)
| ev_redraw (st : State)
| ev_kill_buffers (paths : gset string).

(** What the collaborators answer during one command. *)
Record Env := mk_Env {
  disk_exists : string -> bool;
  relpath : string -> string -> string;
  cursor_row : Z;
  mark_lt : Z;
  mark_gt : Z;
  input_answer : string;
  confirm_answer : Z;
  fs_fault : fs_call -> option exn;
  refresh : Settings -> Node -> gset string -> gset string -> bool -> Node;
  flatten : Settings -> Node -> gset string -> list (string * Node);
  iteration : gset string -> list string
}.

(** ** Statement blocks

    A block of statements produces a call log and completes normally, by
    [return], or by raising. *)

Inductive completion (R : Type) :=
| Normal
| Return (r : R)
| Raise (e : exn).
Arguments Normal {R}.
Arguments Return {R} r.
Arguments Raise {R} e.

Definition block (R : Type) : Type := list event * completion R.

Definition log {R} (b : block R) : list event := fst b.
Definition outcome {R} (b : block R) : completion R := snd b.

Definition emit {R} (e : event) : block R := ([e], Normal).
Definition ret {R} (r : R) : block R := ([], Return r).
Definition skip {R} : block R := ([], Normal).

Definition and_then {R} (b1 b2 : block R) : block R :=
  match b1 with
  | (t1, Normal) => (t1 ++ fst b2, snd b2)
  | _ => b1
  end.

Declare Scope block_scope.
Delimit Scope block_scope with blk.
Bind Scope block_scope with block.
Notation "x ;; z" := (and_then x z)
  (at level 100, z at level 200, right associativity) : block_scope.

(** [try: body finally: fin].  The completion of [fin] wins unless [fin]
    runs off its end, in which case the completion of [body] is resumed. *)
Definition try_finally {R} (body fin : block R) : block R :=
  (fst body ++ fst fin,
   match snd fin with
   | Normal => snd body
   | c => c
   end).

Fixpoint for_each {A R} (f : A -> block R) (l : list A) : block R :=
  match l with
  | [] => skip
  | x :: l' => and_then (f x) (for_each f l')
  end.

Definition call_fs {R} (env : Env) (c : fs_call) : block R :=
  ([ev_fs c], match fs_fault env c with Some e => Raise e | None => Normal end).

Definition is_fs (e : event) : bool :=
  match e with ev_fs _ => true | _ => false end.

Definition fs_calls (t : list event) : list event := List.filter is_fs t.

Definition is_report (e : event) : bool :=
  match e with ev_print _ _ => true | _ => false end.

(** Invalidation sets handed to [forward] in a call log. *)
Definition invalidations (t : list event) : list (gset string) :=
  omap (fun e => match e with ev_forward kw => kw_paths kw | _ => None end) t.

(** Expansion sets handed to [forward] in a call log. *)
Definition expansions (t : list event) : list (gset string) :=
  omap (fun e => match e with ev_forward kw => kw_index kw | _ => None end) t.

(** ** Path utilities ([fast_fm/fs.py]) *)

Module fs.

Fixpoint ancestors_upto (fuel : nat) (p : string) : list string :=
  match fuel with
  | O => []
  | S fuel' =>
      let parent := dirname p in
      if String.eqb parent p then [] else parent :: ancestors_upto fuel' parent
  end.

(** Modelled from the spec: [fast_fm/fs.py] is missing.  [ancestors path]
    is the ordered sequence of ancestor paths from the immediate parent up
    to the filesystem root. *)
Definition ancestors (p : string) : list string :=
  ancestors_upto (String.length p) p.

(** Modelled from the spec: [fast_fm/fs.py] is missing.  [is_parent] is
    true iff [child] is a strict descendant of [parent] in the path
    hierarchy, by path comparison only. *)
Definition is_parent (parent child : string) : bool :=
  bool_decide (parent ∈ ancestors child).

(** Modelled from the spec: [fast_fm/fs.py] is missing.  [unify paths] is
    the subset of [paths] that are not a descendant of another member of
    [paths]. *)
Definition unify (paths : gset string) : gset string :=
  filter (fun p => ¬ set_Exists (fun q => is_parent q p = true) paths) paths.

End fs.

(** ** State transition and row lookup ([fast_fm/state.py]) *)

Module state.

(** Modelled from the spec: [fast_fm/state.py] is missing.  A node is a
    directory iff its mode contains [FOLDER]. *)
Definition is_dir (node : Node) : bool := bool_decide (FOLDER ∈ mode node).

(** Modelled from the spec: [fast_fm/state.py] is missing.  Any omitted
    keyword retains the previous snapshot's value; [paths], when given, is
    the invalidation set passed to the tree builder; the rendered lines and
    the flat index are recomputed from the rebuilt root. *)
Definition forward (env : Env) (st : State) (settings : Settings)
    (kw : forward_kw) : State :=
  let index' := default (index st) (kw_index kw) in
  let selection' := default (selection st) (kw_selection kw) in
  let show_hidden' := default (show_hidden st) (kw_show_hidden kw) in
  let follow' := default (follow st) (kw_follow kw) in
  let root' :=
    refresh env settings (root st) (default ∅ (kw_paths kw)) index' show_hidden' in
  let lines := flatten env settings root' index' in
  mk_State root' index' selection' show_hidden' follow' (lines.*1) (lines.*2).

(** Modelled from the spec: [fast_fm/state.py] is missing.  [index state
    row] is the Node at the zero-based [row] of the flat index, or none if
    [row] is out of range. *)
Definition index (st : State) (row : Z) : option Node :=
  if row <? 0 then None else flat_index st !! Z.to_nat row.

End state.

(** ** Awaitables and the objects a handler holds

    [_index] and [_redraw] are [async def]s and the calls of [nvim.api]
    return awaitables.  A call without [await] yields the awaitable itself:
    a coroutine object, which is true in a condition, has no attribute of a
    [Node], cannot be unpacked as a pair, and never runs unless awaited. *)

Inductive awaitable (A : Type) := pending (value : A).
Arguments pending {A} value.

(** [await c] *)
Definition await {A} (c : awaitable A) : A :=
  match c with pending a => a end.

(** What the variable [node] of a handler can hold. *)
Inductive object :=
| obj_none
| obj_node (n : Node)
| obj_coroutine (c : awaitable (option Node)).

(** Truth value of an object in a condition. *)
Definition truth (o : object) : bool :=
  match o with obj_none => false | _ => true end.

(** An expression evaluates to a value or raises. *)
Definition result (A : Type) : Type := exn + A.

Definition bind_result {A B} (r : result A) (f : A -> result B) : result B :=
  match r with inl e => inl e | inr a => f a end.

(** Reading [o.path] or [o.mode]: only a [Node] has them. *)
Definition as_node (o : object) : result Node :=
  match o with obj_node n => inr n | _ => inl AttributeError end.

(** [row, _ = c] on an awaitable that was not awaited. *)
Definition unpack_pair {A} (c : awaitable A) : result (Z * Z) := inl TypeError.

(** [[f(x) for x in l]], stopping at the first element that raises. *)
Fixpoint collect {A B} (f : A -> result B) (l : list A) : result (list B) :=
  match l with
  | [] => inr []
  | x :: l' => bind_result (f x) (fun y => bind_result (collect f l') (fun ys => inr (y :: ys)))
  end.

(** A statement block that first evaluates an expression. *)
Definition eval {A R} (r : result A) (k : A -> block R) : block R :=
  match r with inl e => ([], Raise e) | inr a => k a end.

(** ** Editor calls ([fast_fm/nvim.py])

    The column of a cursor or mark position is read by no handler and
    stands as [0]. *)

Definition api_get_current_win (env : Env) : awaitable unit := pending tt.
Definition api_get_current_buf (env : Env) : awaitable unit := pending tt.

Definition api_win_get_cursor {W} (env : Env) (window : W) : awaitable (Z * Z) :=
  pending (cursor_row env, 0).

Definition api_buf_get_mark {B} (env : Env) (buffer : B) (mark : string) : awaitable (Z * Z) :=
  pending (if String.eqb mark "<" then mark_lt env else mark_gt env, 0).

(** ** Command handlers ([fast_fm/commands.py]) *)

Local Open Scope block_scope.

Definition nl : string := String "010"%char EmptyString.

(** [s.replace("\n", r"\n")] *)
Fixpoint escape_newlines (s : string) : string :=
  match s with
  | EmptyString => EmptyString
  | String c r =>
      if Ascii.eqb c "010"%char then String "\"%char (String "n"%char (escape_newlines r))
      else String c (escape_newlines r)
  end.

(** Truth value of a Python [set]. *)
Definition nonempty (s : gset string) : bool := negb (bool_decide (s = ∅)).

(** [a ^ b] on Python [set]s. *)
Definition set_xor (a b : gset string) : gset string := (a ∖ b) ∪ (b ∖ a).

(** Calls into the window manager that the batch handlers never make. *)
Inductive ui_call :=
| ui_show_file (file : string).

Definition session (R : Type) : Type := list (event + ui_call) * completion R.

Definition widen {R} (b : block R) : session R := (List.map inl (fst b), snd b).

Definition ui {R} (c : ui_call) (rest : session R) : session R :=
  (inr c :: fst rest, snd rest).

Definition session_eval {A R} (r : result A) (k : A -> session R) : session R :=
  match r with inl e => ([], Raise e) | inr a => k a end.

(** The calls of a session that a block could have made. *)
Definition core_log (t : list (event + ui_call)) : list event :=
  omap (fun e => match e with inl c => Some c | inr _ => None end) t.

(** [for row in range(lo, hi): node = index(state, row); if node: yield node] *)
Definition resolve_range (st : State) (lo hi : Z) : list Node :=
  omap (fun row => state.index st row) (seqZ lo (hi - lo)).

Definition _find_dest (src : string) (node : Node) : string :=
  let name := basename src in
  let parent := if state.is_dir node then path node else dirname (path node) in
  let dst := join parent name in
  dst.

Section commands.

Variable env : Env.

Definition _index (st : State) : awaitable (option Node) :=
  pending
    (let window := await (api_get_current_win env) in
     let '(row, _) := await (api_win_get_cursor env window) in
     let row := row - 1 in
     state.index st row).

(** The generator [_indices], as the list it yields or the exception its
    body raises when it is first advanced. *)
Definition _indices (st : State) (is_visual : bool) : result (list Node) :=
  if is_visual then
    let buffer := api_get_current_buf env in
    bind_result (unpack_pair (api_buf_get_mark env buffer "<")) (fun '(r1, _) =>
    bind_result (unpack_pair (api_buf_get_mark env buffer ">")) (fun '(r2, _) =>
    inr (resolve_range st (r1 - 1) r2)))
  else
    let window := api_get_current_win env in
    bind_result (unpack_pair (api_win_get_cursor env window)) (fun '(row, _) =>
    let row := row - 1 in
    inr (option_list (state.index st row))).

(** The coroutine [_redraw]: awaited, it would replace the buffer lines. *)
Definition _redraw (st : State) : awaitable (list event) :=
  pending [ev_redraw st].

Definition _display_path (p : string) (st : State) : string :=
  let raw := relpath env p (path (root st)) in
  escape_newlines raw.

Definition c_primary (st : State) (settings : Settings) : session State :=
  let node := obj_coroutine (_index st) in
  if truth node then
    session_eval
      (bind_result (as_node node) (fun n => inr (bool_decide (FOLDER ∈ mode n))))
      (fun is_folder =>
         if is_folder then
           session_eval (as_node node) (fun n =>
             let paths : gset string := {[path n]} in
             let index := set_xor (index st) paths in
             let kw := mk_kw (Some index) (Some paths) None None None in
             let new_state := state.forward env st settings kw in
             widen (emit (ev_forward kw) ;;
                    let _ := _redraw new_state in
                    ret new_state))
         else
           session_eval (as_node node) (fun n =>
             ui (ui_show_file (path n)) (widen (ret st))))
  else widen (ret st).

Definition c_collapse (st : State) (settings : Settings) : block State :=
  let node := obj_coroutine (_index st) in
  eval
    (if truth node
     then bind_result (as_node node) (fun n => inr (bool_decide (FOLDER ∈ mode n)))
     else inr false)
    (fun is_folder =>
       if is_folder then
         eval (as_node node) (fun n =>
           let paths := filter (fun i => fs.is_parent (path n) i = true) (index st) in
           let index := index st ∖ paths in
           let kw := mk_kw (Some index) (Some paths) None None None in
           let new_state := state.forward env st settings kw in
           emit (ev_forward kw) ;;
           let _ := _redraw new_state in
           ret new_state)
       else ret st).

Definition c_refresh (st : State) (settings : Settings) : block State :=
  let paths : gset string := {[path (root st)]} in
  let kw := mk_kw None (Some paths) None None None in
  let new_state := state.forward env st settings kw in
  emit (ev_forward kw) ;;
  let _ := _redraw new_state in
  ret new_state.

Definition c_hidden (st : State) (settings : Settings) : block State :=
  let kw := mk_kw None None None (Some (negb (show_hidden st))) None in
  let new_state := state.forward env st settings kw in
  emit (ev_forward kw) ;;
  let _ := _redraw new_state in
  ret new_state.

Definition c_follow (st : State) (settings : Settings) : block State :=
  let kw := mk_kw None None None None (Some (negb (follow st))) in
  let new_state := state.forward env st settings kw in
  emit (ev_forward kw) ;;
  ret new_state.

Definition c_new (st : State) (settings : Settings) : block State :=
  let node := obj_coroutine (_index st) in
  if truth node then
    eval
      (bind_result (as_node node) (fun n =>
         inr (if state.is_dir n then path n else dirname (path n))))
      (fun parent =>
         emit (ev_input "✏️  :" None) ;;
         let child := input_answer env in
         let name := join parent child in
         if disk_exists env name then
           let msg := "⚠️  Exists: " +:+ name in
           emit (ev_print msg true) ;;
           ret st
         else
           try_finally
             (call_fs env (fs_new name))
             (let index := index st ∪ list_to_set (fs.ancestors name) in
              let kw := mk_kw (Some index) (Some {[parent]}) None None None in
              let new_state := state.forward env st settings kw in
              emit (ev_forward kw) ;;
              let _ := _redraw new_state in
              ret new_state))
  else ret st.

Definition c_rename (st : State) (settings : Settings) : block State :=
  let node := obj_coroutine (_index st) in
  if truth node then
    eval (bind_result (as_node node) (fun n => inr (path n))) (fun prev_name =>
      let parent := path (root st) in
      let rel_path := relpath env prev_name parent in
      emit (ev_input "✏️  :" (Some rel_path)) ;;
      let child := input_answer env in
      let new_name := join parent child in
      let new_parent := dirname new_name in
      if disk_exists env new_name then
        let msg := "⚠️  Exists: " +:+ new_name in
        emit (ev_print msg true) ;;
        ret st
      else
        try_finally
          (call_fs env (fs_rename prev_name new_name))
          (let paths : gset string :=
             {[parent]} ∪ {[new_parent]} ∪ list_to_set (fs.ancestors new_parent) in
           let index := index st ∪ paths in
           let kw := mk_kw (Some index) (Some paths) None None None in
           let new_state := state.forward env st settings kw in
           emit (ev_forward kw) ;;
           let _ := _redraw new_state in
           emit (ev_kill_buffers {[prev_name]}) ;;
           ret new_state))
  else ret st.

Definition c_clear (st : State) (settings : Settings) : block State :=
  let kw := mk_kw None None (Some ∅) None None in
  let new_state := state.forward env st settings kw in
  emit (ev_forward kw) ;;
  let _ := _redraw new_state in
  ret new_state.

Definition c_select (st : State) (settings : Settings) (is_visual : bool) : block State :=
  let nodes := _indices st is_visual in
  if is_visual then
    eval nodes (fun nodes =>
      let selection := set_xor (selection st) (list_to_set (List.map path nodes)) in
      let kw := mk_kw None None (Some selection) None None in
      let new_state := state.forward env st settings kw in
      emit (ev_forward kw) ;;
      let _ := _redraw new_state in
      ret new_state)
  else
    eval nodes (fun nodes =>
      match head nodes with
      | Some node =>
          let selection := set_xor (selection st) {[path node]} in
          let kw := mk_kw None None (Some selection) None None in
          let new_state := state.forward env st settings kw in
          emit (ev_forward kw) ;;
          let _ := _redraw new_state in
          ret new_state
      | None => ret st
      end).

Definition c_delete (st : State) (settings : Settings) : block State :=
  let node := obj_coroutine (_index st) in
  eval
    (if nonempty (selection st) then inr (selection st)
     else if truth node
          then bind_result (as_node node) (fun n => inr ({[path n]} : gset string))
          else inr ∅)
    (fun selection =>
       if nonempty selection then
         let unified := iteration env (fs.unify selection) in
         let display_paths :=
           String.concat nl (List.map (fun p => _display_path p st) unified) in
         emit (ev_confirm ("🗑  " +:+ display_paths +:+ "?")
                 ("&Yes" +:+ nl +:+ "&No" +:+ nl) 2) ;;
         let ans := confirm_answer env in
         if ans =? 1 then
           try_finally
             (call_fs env (fs_remove unified))
             (let paths : gset string := list_to_set (List.map dirname unified) in
              let kw := mk_kw None (Some paths) None None None in
              let new_state := state.forward env st settings kw in
              emit (ev_forward kw) ;;
              let _ := _redraw new_state in
              emit (ev_kill_buffers selection) ;;
              ret new_state)
         else ret st
       else ret st).

(** The [operations] dictionary, in insertion order. *)
Definition plan (sel : gset string) (node : object) : result (list (string * string)) :=
  collect
    (fun src => bind_result (as_node node) (fun n => inr (src, _find_dest src n)))
    (iteration env sel).

Definition pre_existing (operations : list (string * string)) : list (string * string) :=
  List.filter (fun '(_, d) => disk_exists env d) operations.

Definition show_pair (st : State) (sd : string * string) : string :=
  _display_path sd.1 st +:+ " -> " +:+ _display_path sd.2 st.

Definition _operation (st : State) (settings : Settings) (name : string)
    (action : string -> string -> fs_call) : block State :=
  let node := obj_coroutine (_index st) in
  let selection := selection st in
  if nonempty selection && truth node then
    eval (plan selection node) (fun operations =>
      let pre_existing := pre_existing operations in
      if negb (bool_decide (pre_existing = [])) then
        let msg := String.concat ", " (List.map (show_pair st) pre_existing) in
        emit (ev_print ("⚠️  -- " +:+ name +:+ ": path(s) already exist! :: " +:+ msg) true) ;;
        ret st
      else
        try_finally
          (for_each (fun '(src, dest) => call_fs env (action src dest)) operations)
          (let paths : gset string :=
             list_to_set (List.map snd operations)
             ∪ list_to_set (List.map (fun sd => dirname sd.1) operations) in
           let index := index st ∪ paths in
           let kw := mk_kw (Some index) (Some paths) None None None in
           let new_state := state.forward env st settings kw in
           emit (ev_forward kw) ;;
           let _ := _redraw new_state in
           emit (ev_kill_buffers selection) ;;
           ret new_state))
  else
    emit (ev_print "⚠️  -- {name}: nothing selected!" true) ;;
    ret st.

Definition c_cut (st : State) (settings : Settings) : block State :=
  _operation st settings "Cut" fs_cut.

Definition c_copy (st : State) (settings : Settings) : block State :=
  _operation st settings "Copy" fs_copy.

End commands.

Local Close Scope block_scope.

(** The members of every set are iterated once each, in some order. *)
Definition iterates_members (env : Env) : Prop :=
  ∀ s : gset string, iteration env s ≡ₚ elements s.


(** ** Predicates on strings and paths used in statements *)

(** [c in s] *)
Fixpoint contains (c : ascii) (s : string) : bool :=
  match s with
  | EmptyString => false
  | String a r => Ascii.eqb a c || contains c r
  end.

(** A directory path as [dirname] returns it: without a trailing separator,
    unless it is made of separators only. *)
Definition clean_dir (p : string) : bool := negb (endswith_sep p) || all_sep p.


(** ** Fixtures: concrete collaborators and snapshots *)

Module fixture.

Definition settings0 : Settings := mk_Settings false true false.

Definition dir (p : string) : Node := mk_Node p {[FOLDER]} None.
Definition file (p : string) : Node := mk_Node p {[FILE]} None.

Fixpoint strip_prefix (pre s : string) : option string :=
  match pre, s with
  | EmptyString, _ => Some s
  | String a pre', String b s' => if Ascii.eqb a b then strip_prefix pre' s' else None
  | String _ _, EmptyString => None
  end.

(** [relpath] for a path at or below [start]. *)
Definition relpath_below (p start : string) : string :=
  match strip_prefix start p with
  | Some EmptyString => "."
  | Some (String c rest as below) =>
      if endswith_sep start then below else if is_sep c then rest else p
  | None => p
  end.

(** A tree builder that finds the disk as the cache has it. *)
Definition cached_refresh (_ : Settings) (r : Node) (_ _ : gset string) (_ : bool) : Node := r.
Definition root_only (_ : Settings) (r : Node) (_ : gset string) : list (string * Node) :=
  [(path r, r)].

Definition mk_env (on_disk : string -> bool) (row : Z) (answer : string)
    (confirm : Z) (fault : fs_call -> option exn) : Env :=
  mk_Env on_disk relpath_below row row row answer confirm fault cached_refresh root_only
    elements.

Definition with_marks (env : Env) (r1 r2 : Z) : Env :=
  mk_Env (disk_exists env) (relpath env) (cursor_row env) r1 r2 (input_answer env)
    (confirm_answer env) (fs_fault env) (refresh env) (flatten env) (iteration env).

Definition mk_state (r : Node) (expanded selected : gset string) (rows : list Node) : State :=
  mk_State r expanded selected false false (List.map path rows) rows.

Definition no_fault (_ : fs_call) : option exn := None.
Definition disk_full (_ : fs_call) : option exn := Some (OSError "ENOSPC").

End fixture.


(** ** Concrete inputs *)

Module scenario.

Import fixture.

(** A tree rooted at [/] that shows [/a], [/a/x], [/b] and [/b/x]. *)
Definition rows_ab : list Node :=
  [dir "/"; dir "/a"; file "/a/x"; dir "/b"; file "/b/x"].

Definition on_disk_ab (p : string) : bool :=
  bool_decide (p ∈ ["/"; "/a"; "/a/x"; "/b"; "/b/x"]).

(** [/a/x] is selected. *)
Definition st_selected : State :=
  mk_state (dir "/") {["/"; "/a"; "/b"]} {["/a/x"]} rows_ab.

(** Nothing is selected. *)
Definition st_plain : State :=
  mk_state (dir "/") {["/"; "/a"; "/b"]} ∅ rows_ab.

(** A tree rooted at [/r] that shows [/r/a] and [/r/a/f]. *)
Definition rows_r : list Node := [dir "/r"; dir "/r/a"; file "/r/a/f"].

Definition on_disk_r (p : string) : bool :=
  bool_decide (p ∈ ["/"; "/r"; "/r/a"; "/r/a/f"]).

Definition st_r : State := mk_state (dir "/r") {["/r"; "/r/a"]} ∅ rows_r.



(** A tree rooted at [/] that shows [/a], [/a/x] and the empty [/b]. *)
Definition rows_move : list Node := [dir "/"; dir "/a"; file "/a/x"; dir "/b"].

Definition on_disk_move (p : string) : bool :=
  bool_decide (p ∈ ["/"; "/a"; "/a/x"; "/b"]).

Definition st_move : State :=
  mk_state (dir "/") {["/"; "/a"; "/b"]} {["/a/x"]} rows_move.

(** A tree rooted at [/] where [/a] and [/a/sub] are expanded. *)
Definition rows_sub : list Node :=
  [dir "/"; dir "/a"; dir "/a/sub"; file "/a/sub/y"; dir "/b"].

Definition on_disk_sub (p : string) : bool :=
  bool_decide (p ∈ ["/"; "/a"; "/a/sub"; "/a/sub/y"; "/b"]).

Definition st_sub : State :=
  mk_state (dir "/") {["/"; "/a"; "/a/sub"; "/b"]} {["/a/sub/y"]} rows_sub.

(** The cursor is on [/b]; the prompt answers [x]; nobody says yes. *)
Definition env_conflict : Env := mk_env on_disk_ab 4 "x" 2 no_fault.
(** The cursor is on [/a/x]; the prompt answers [b/x]. *)
Definition env_conflict_rename : Env := mk_env on_disk_ab 3 "b/x" 2 no_fault.
(** The cursor is below the last row. *)
Definition env_nowhere : Env := mk_env on_disk_ab 9 "" 1 no_fault.
(** The cursor is on [/r/a/f]; the prompt answers [g]. *)
Definition env_rename : Env := mk_env on_disk_r 3 "g" 2 no_fault.
(** The cursor is on [/b]; the user says yes; every filesystem verb raises. *)
Definition env_fault : Env := mk_env on_disk_move 4 "" 1 disk_full.
(** The cursor is on [/a]; the visual marks span rows 2 to 9. *)
Definition env_collapse : Env := with_marks (mk_env on_disk_sub 2 "" 2 no_fault) 2 9.

End scenario.


(** ** More concrete inputs *)

Module scenario2.

Import fixture scenario.

Definition with_cursor (env : Env) (row : Z) : Env :=
  mk_Env (disk_exists env) (relpath env) row (mark_lt env) (mark_gt env)
    (input_answer env) (confirm_answer env) (fs_fault env) (refresh env) (flatten env)
    (iteration env).

(** [/a/x] and [/c/y] are selected in a tree that also shows [/c]. *)
Definition rows_abc : list Node :=
  [dir "/"; dir "/a"; file "/a/x"; dir "/b"; dir "/c"; file "/c/y"].

Definition on_disk_abc (p : string) : bool :=
  bool_decide (p ∈ ["/"; "/a"; "/a/x"; "/b"; "/c"; "/c/y"]).

Definition st_two : State :=
  mk_state (dir "/") {["/"; "/a"; "/b"; "/c"]} {["/a/x"; "/c/y"]} rows_abc.

(** [/a/x] and [/c/y] are selected, the cursor is on [/b], the user says
    yes; nothing fails. *)
Definition env_two : Env := mk_env on_disk_abc 4 "" 1 no_fault.
(** Nothing is selected in the same tree. *)
Definition st_none : State :=
  mk_state (dir "/") {["/"; "/a"; "/b"; "/c"]} ∅ rows_abc.

(** The folder [/a] and its descendant [/a/x] are both selected. *)
Definition st_nested : State :=
  mk_state (dir "/") {["/"; "/a"; "/b"; "/c"]} {["/a"; "/a/x"]} rows_abc.



End scenario2.

Import fixture scenario scenario2.

(** * Properties *)

(** ** Evaluation on small inputs *)

Example dirname_file : dirname "/a/newdir/newfile" = "/a/newdir".
Proof. reflexivity. Qed.
Example dirname_top : dirname "/a" = "/".
Proof. reflexivity. Qed.
Example dirname_root : dirname "/" = "/".
Proof. reflexivity. Qed.
Example dirname_trailing : dirname "/a/b/" = "/a/b".
Proof. reflexivity. Qed.
Example dirname_relative : dirname "a" = "".
Proof. reflexivity. Qed.
Example basename_file : basename "/a/x" = "x".
Proof. reflexivity. Qed.
Example basename_trailing : basename "/a/x/" = "".
Proof. reflexivity. Qed.
Example join_plain : join "/b" "x" = "/b/x".
Proof. reflexivity. Qed.
Example join_absolute : join "/b" "/x" = "/x".
Proof. reflexivity. Qed.
Example join_slash : join "/" "x" = "/x".
Proof. reflexivity. Qed.

Example ancestors_nested : fs.ancestors "/a/newdir/newfile" = ["/a/newdir"; "/a"; "/"].
Proof. reflexivity. Qed.
Example ancestors_root : fs.ancestors "/" = [].
Proof. reflexivity. Qed.
Example is_parent_strict : fs.is_parent "/a" "/a" = false.
Proof. vm_compute. reflexivity. Qed.
Example is_parent_deep : fs.is_parent "/a" "/a/b/c" = true.
Proof. vm_compute. reflexivity. Qed.
Example is_parent_sibling : fs.is_parent "/a" "/ab/c" = false.
Proof. vm_compute. reflexivity. Qed.
Example unify_nested :
  fs.unify {["/a"; "/a/b/c"; "/d/e"]} = ({["/a"; "/d/e"]} : gset string).
Proof. vm_compute. reflexivity. Qed.

Example relpath_below_dir : fixture.relpath_below "/r/a/f" "/r" = "a/f".
Proof. reflexivity. Qed.
Example relpath_below_root : fixture.relpath_below "/a/x" "/" = "a/x".
Proof. reflexivity. Qed.
Example relpath_below_self : fixture.relpath_below "/r" "/r" = ".".
Proof. reflexivity. Qed.

(** Decides a closed decidable proposition by evaluating its decision
    procedure. *)
Ltac by_evaluation := apply (bool_decide_unpack _); vm_compute; exact I.

(** ** Paths *)

Section path_facts.

Lemma rstrip_length (s : string) :
  (String.length (rstrip s) <= String.length s)%nat
  ∧ (String.length (rstrip s) = String.length s -> rstrip s = s).
Proof.
  induction s as [|c r [IHle IHeq]]; simpl; [done|].
  destruct (is_empty (rstrip r) && is_sep c) eqn:E; simpl.
  - split; [lia | discriminate].
  - split; [lia |]. intros H. f_equal. apply IHeq. lia.
Qed.

Lemma rsplit_head_length (p : string) :
  (String.length (rsplit p).1 <= String.length p)%nat
  ∧ (String.length (rsplit p).1 = String.length p -> (rsplit p).1 = p).
Proof.
  induction p as [|c r [IHle IHeq]]; simpl; [done|].
  destruct (rsplit r) as [h t] eqn:E; simpl in *.
  destruct (is_empty h) eqn:Eh.
  - destruct h; [|discriminate]. simpl in *.
    destruct (is_sep c); simpl.
    + split; [lia |]. intros H. destruct r; [done | simpl in H; lia].
    + split; [lia | discriminate].
  - simpl. split; [lia |]. intros H. f_equal. apply IHeq. lia.
Qed.

Lemma dirname_length (p : string) :
  (String.length (dirname p) <= String.length p)%nat.
Proof.
  unfold dirname.
  pose proof (rsplit_head_length p) as [Hle _].
  pose proof (rstrip_length (rsplit p).1) as [Hs _].
  destruct (negb (is_empty (rsplit p).1) && negb (all_sep (rsplit p).1)); lia.
Qed.

Lemma dirname_shorter (p : string) :
  dirname p ≠ p -> (String.length (dirname p) < String.length p)%nat.
Proof.
  intros Hne.
  destruct (decide (String.length (dirname p) = String.length p)) as [Heq|Hlt].
  - exfalso. apply Hne. revert Heq. unfold dirname.
    pose proof (rsplit_head_length p) as [Hle Hhead].
    pose proof (rstrip_length (rsplit p).1) as [Hs Hstrip].
    destruct (negb (is_empty (rsplit p).1) && negb (all_sep (rsplit p).1)); intros Heq.
    + rewrite Hstrip by lia. apply Hhead. lia.
    + by apply Hhead.
  - pose proof (dirname_length p). lia.
Qed.

Lemma ancestors_upto_shorter (n : nat) (p a : string) :
  a ∈ fs.ancestors_upto n p -> (String.length a < String.length p)%nat.
Proof.
  revert p. induction n as [|n IH]; intros p; simpl.
  - by intros ?%elem_of_nil.
  - destruct (String.eqb (dirname p) p) eqn:E.
    + by intros ?%elem_of_nil.
    + apply String.eqb_neq in E. apply dirname_shorter in E.
      intros [->|Hin]%elem_of_cons; [done|].
      apply IH in Hin. lia.
Qed.

(** The fuel never runs out: more fuel than the length of the path changes
    nothing, so [ancestors] climbs all the way to a fixed point of
    [dirname]. *)
Lemma ancestors_upto_enough (n m : nat) (p : string) :
  (String.length p <= n)%nat -> (String.length p <= m)%nat ->
  fs.ancestors_upto n p = fs.ancestors_upto m p.
Proof.
  revert m p. induction n as [|n IH]; intros m p Hn Hm.
  - destruct p; [|simpl in Hn; lia]. by destruct m.
  - destruct m as [|m].
    + destruct p; [done | simpl in Hm; lia].
    + simpl. destruct (String.eqb (dirname p) p) eqn:E; [done|].
      apply String.eqb_neq in E. apply dirname_shorter in E.
      f_equal. apply IH; lia.
Qed.

Lemma ancestors_unfold (p : string) :
  fs.ancestors p =
    if String.eqb (dirname p) p then [] else dirname p :: fs.ancestors (dirname p).
Proof.
  unfold fs.ancestors at 1. destruct p as [|c r]; [done|].
  change (String.length (String c r)) with (S (String.length r)).
  cbn [fs.ancestors_upto].
  destruct (String.eqb (dirname (String c r)) (String c r)) eqn:E; [done|].
  f_equal. apply String.eqb_neq in E. apply dirname_shorter in E.
  apply ancestors_upto_enough; simpl in *; lia.
Qed.

Lemma ancestors_shorter (p a : string) :
  a ∈ fs.ancestors p -> (String.length a < String.length p)%nat.
Proof. apply ancestors_upto_shorter. Qed.

Lemma is_parent_spec (parent child : string) :
  fs.is_parent parent child = true <-> parent ∈ fs.ancestors child.
Proof. unfold fs.is_parent. by rewrite bool_decide_eq_true. Qed.

Lemma is_parent_irrefl (p : string) : fs.is_parent p p = false.
Proof.
  apply not_true_is_false. rewrite is_parent_spec.
  intros H%ancestors_shorter. lia.
Qed.

Lemma is_parent_shorter (parent child : string) :
  fs.is_parent parent child = true ->
  (String.length parent < String.length child)%nat.
Proof. rewrite is_parent_spec. apply ancestors_shorter. Qed.

Lemma ancestors_trans (p a b : string) :
  a ∈ fs.ancestors p -> b ∈ fs.ancestors a -> b ∈ fs.ancestors p.
Proof.
  remember (String.length p) as n eqn:Hn. revert p Hn a.
  induction (lt_wf n) as [n _ IH]; intros p -> a Ha Hb.
  rewrite ancestors_unfold in Ha |- *.
  destruct (String.eqb (dirname p) p) eqn:E; [by apply elem_of_nil in Ha|].
  apply String.eqb_neq in E. apply dirname_shorter in E.
  apply elem_of_cons in Ha as [->|Ha].
  - by right.
  - right. by eapply (IH _ E (dirname p) eq_refl a).
Qed.

End path_facts.

(** ** Unification of path sets *)

Lemma elem_of_unify (S : gset string) (p : string) :
  p ∈ fs.unify S <-> p ∈ S ∧ ∀ q, q ∈ S -> fs.is_parent q p = false.
Proof.
  unfold fs.unify. rewrite elem_of_filter. unfold set_Exists. split.
  - intros [Hno Hin]. split; [done|]. intros q Hq.
    apply not_true_is_false. intros Hp. apply Hno. by exists q.
  - intros [Hin Hno]. split; [|done]. intros (q & Hq & Hp).
    rewrite (Hno q Hq) in Hp. discriminate.
Qed.

Lemma unify_subseteq (S : gset string) : fs.unify S ⊆ S.
Proof. intros p. rewrite elem_of_unify. tauto. Qed.

(** C8. [unify S] keeps exactly the members of [S] that are not a descendant
    of another member of [S]; unifying twice is the same as unifying once;
    and no member of [unify S] is a descendant of a member of [unify S]. *)
Theorem unify_idempotent_antichain (S : gset string) :
  (∀ p, p ∈ fs.unify S <->
        p ∈ S ∧ ¬ ∃ q, q ∈ S ∧ q ≠ p ∧ fs.is_parent q p = true)
  ∧ fs.unify (fs.unify S) = fs.unify S
  ∧ (∀ p q, p ∈ fs.unify S -> q ∈ fs.unify S -> fs.is_parent q p = false).
Proof.
  split; [|split].
  - intros p. rewrite elem_of_unify. split.
    + intros [Hin Hno]. split; [done|]. intros (q & Hq & _ & Hp).
      rewrite (Hno q Hq) in Hp. discriminate.
    + intros [Hin Hno]. split; [done|]. intros q Hq.
      apply not_true_is_false. intros Hp. apply Hno. exists q.
      split; [done|]. split; [|done].
      intros ->. rewrite is_parent_irrefl in Hp. discriminate.
  - apply set_eq. intros p. rewrite !elem_of_unify. split.
    + tauto.
    + intros [Hin Hno]. split; [done|].
      intros q [Hq _]%elem_of_unify. by apply Hno.
  - intros p q [_ Hno]%elem_of_unify [Hq _]%elem_of_unify. by apply Hno.
Qed.

(** C8 at a concrete input: a directory, one of its descendants and an
    unrelated path. *)
Lemma unify_idempotent_antichain_witness :
  "/a" ∈ fs.unify {["/a"; "/a/b/c"; "/d/e"]}
  ∧ fs.unify (fs.unify {["/a"; "/a/b/c"; "/d/e"]}) = fs.unify {["/a"; "/a/b/c"; "/d/e"]}
  ∧ fs.is_parent "/d/e" "/a" = false.
Proof.
  destruct (unify_idempotent_antichain {["/a"; "/a/b/c"; "/d/e"]}) as (Hmem & Hidem & Hanti).
  split; [|split].
  - apply Hmem. split; [by_evaluation|].
    intros (q & Hq & Hne & Hpar). apply is_parent_shorter in Hpar.
    destruct q as [|c [|c' q]]; simpl in Hpar; try lia.
    + revert Hq. apply (bool_decide_unpack _). vm_compute. exact I.
    + destruct (decide (c = "/"%char)) as [->|Hc].
      * revert Hq. apply (bool_decide_unpack _). vm_compute. exact I.
      * apply Hc. revert Hq. rewrite !elem_of_union, !elem_of_singleton.
        intros [[Hq|Hq]|Hq]; by injection Hq.
  - exact Hidem.
  - apply Hanti; by_evaluation.
Defined.

(** ** Row lookup *)

Lemma index_in_range (st : State) (row : Z) :
  0 <= row < Z.of_nat (length (flat_index st)) ->
  ∃ node, flat_index st !! Z.to_nat row = Some node ∧ state.index st row = Some node.
Proof.
  intros [Hlo Hhi]. unfold state.index.
  destruct (Z.ltb_spec row 0) as [?|_]; [lia|].
  destruct (lookup_lt_is_Some_2 (flat_index st) (Z.to_nat row)) as [node Hnode]; [lia|].
  by exists node.
Qed.

Lemma index_out_of_range (st : State) (row : Z) :
  row < 0 ∨ Z.of_nat (length (flat_index st)) <= row -> state.index st row = None.
Proof.
  intros H. unfold state.index.
  destruct (Z.ltb_spec row 0) as [?|Hge]; [done|].
  apply lookup_ge_None. lia.
Qed.

(** Resolving [n] consecutive rows from [lo] on gives the slice of the flat
    index that the rows cover. *)
Lemma resolve_rows (st : State) (n : nat) (lo : Z) :
  omap (fun row => state.index st row) (seqZ lo (Z.of_nat n)) =
    take (Z.to_nat (lo + Z.of_nat n - Z.max 0 lo)) (drop (Z.to_nat lo) (flat_index st)).
Proof.
  revert lo. induction n as [|n IH]; intros lo.
  - assert (Z.to_nat (lo + Z.of_nat 0 - Z.max 0 lo) = 0%nat) as -> by lia. done.
  - rewrite seqZ_cons by lia.
    replace (Z.pred (Z.of_nat (S n))) with (Z.of_nat n) by lia.
    cbn [omap list_omap].
    rewrite IH. unfold state.index at 1.
    destruct (Z.ltb_spec lo 0) as [Hneg|Hpos].
    + replace (Z.to_nat (Z.succ lo)) with (Z.to_nat lo) by lia.
      f_equal. lia.
    + destruct (flat_index st !! Z.to_nat lo) as [node|] eqn:E.
      * rewrite (drop_S _ _ _ E).
        replace (Z.to_nat (lo + Z.of_nat (S n) - Z.max 0 lo)) with (S n) by lia.
        cbn [take]. f_equal.
        replace (Z.to_nat (Z.succ lo)) with (S (Z.to_nat lo)) by lia.
        f_equal. lia.
      * apply lookup_ge_None in E.
        rewrite !drop_ge by lia. by rewrite !take_nil.
Qed.


Lemma resolve_range_slice (st : State) (lo hi : Z) :
  resolve_range st lo hi =
    take (Z.to_nat (hi - Z.max 0 lo)) (drop (Z.to_nat lo) (flat_index st)).
Proof.
  unfold resolve_range.
  destruct (Z.le_gt_cases 0 (hi - lo)) as [Hlen|Hlen].
  - rewrite <- (Z2Nat.id _ Hlen), resolve_rows. f_equal. lia.
  - rewrite seqZ_nil by lia.
    replace (Z.to_nat (hi - Z.max 0 lo)) with 0%nat by lia. done.
Qed.

(** ** Call logs of the handlers *)

Ltac run_block :=
  cbv beta iota delta [and_then try_finally emit ret skip call_fs log outcome fst snd app].

Lemma nonempty_true (s : gset string) : nonempty s = true <-> s ≠ ∅.
Proof. unfold nonempty. rewrite negb_true_iff, bool_decide_eq_false. done. Qed.

Lemma nonempty_false (s : gset string) : nonempty s = false <-> s = ∅.
Proof. unfold nonempty. rewrite negb_false_iff, bool_decide_eq_true. done. Qed.

(** A [return] in the [finally] block discards whatever the [try] body was
    completing with. *)
Lemma finally_return_wins {R} (body : block R) (t : list event) (r : R) :
  try_finally body (t, Return r) = (fst body ++ t, Return r).
Proof. reflexivity. Qed.

(** *** The lookup that is never awaited *)

(** A plan over a coroutine object fails at its first source. *)
Lemma plan_of_coroutine (env : Env) (sel : gset string) (c : awaitable (option Node)) :
  plan env sel (obj_coroutine c) =
    match iteration env sel with
    | [] => inr []
    | _ :: _ => inl AttributeError
    end.
Proof. unfold plan. by destruct (iteration env sel). Qed.

Lemma iteration_nonempty (env : Env) (s : gset string) :
  iterates_members env -> s ≠ ∅ -> iteration env s ≠ [].
Proof.
  intros Hiter Hs Hnil. specialize (Hiter s). rewrite Hnil in Hiter.
  symmetry in Hiter. apply Permutation_nil_r in Hiter.
  by apply elements_empty_inv, leibniz_equiv in Hiter.
Qed.

Lemma lookup_handlers_raise (env : Env) (st : State) (settings : Settings) :
  c_primary env st settings = ([], Raise AttributeError)
  ∧ c_collapse env st settings = ([], Raise AttributeError)
  ∧ c_new env st settings = ([], Raise AttributeError)
  ∧ c_rename env st settings = ([], Raise AttributeError).
Proof. repeat split. Qed.

Lemma operation_warns (env : Env) (st : State)
    (settings : Settings) (name : string) (action : string -> string -> fs_call) :
  selection st = ∅ ->
  _operation env st settings name action =
    ([ev_print "⚠️  -- {name}: nothing selected!" true], Return st).
Proof.
  intros Hsel. unfold _operation. rewrite Hsel.
  assert (nonempty ∅ = false) as -> by by apply nonempty_false. done.
Qed.

Lemma operation_raises (env : Env) (st : State)
    (settings : Settings) (name : string) (action : string -> string -> fs_call) :
  iterates_members env -> selection st ≠ ∅ ->
  _operation env st settings name action = ([], Raise AttributeError).
Proof.
  intros Hiter Hsel. pose proof (iteration_nonempty env _ Hiter Hsel) as Hne.
  apply nonempty_true in Hsel. unfold _operation. rewrite Hsel. cbn [truth andb].
  rewrite plan_of_coroutine. by destruct (iteration env (selection st)).
Qed.

Lemma delete_raises_without_selection (env : Env) (st : State) (settings : Settings) :
  selection st = ∅ -> c_delete env st settings = ([], Raise AttributeError).
Proof.
  intros Hsel. unfold c_delete. rewrite Hsel.
  assert (nonempty ∅ = false) as -> by by apply nonempty_false. done.
Qed.

Lemma select_raises (env : Env) (st : State) (settings : Settings) (is_visual : bool) :
  c_select env st settings is_visual = ([], Raise TypeError).
Proof. by destruct is_visual. Qed.

(** What a delete with a selection does, up to the answer of the prompt. *)
Lemma delete_with_selection (env : Env) (st : State) (settings : Settings) :
  selection st ≠ ∅ ->
  let unified := iteration env (fs.unify (selection st)) in
  let paths : gset string := list_to_set (List.map dirname unified) in
  let kw := mk_kw None (Some paths) None None None in
  let new_state := state.forward env st settings kw in
  let prompt :=
    ev_confirm
      ("🗑  " +:+ String.concat nl (List.map (fun p => _display_path env p st) unified) +:+ "?")
      ("&Yes" +:+ nl +:+ "&No" +:+ nl) 2 in
  c_delete env st settings =
    if confirm_answer env =? 1
    then ([prompt; ev_fs (fs_remove unified); ev_forward kw; ev_kill_buffers (selection st)],
          Return new_state)
    else ([prompt], Return st).
Proof.
  intros Hsel%nonempty_true. unfold c_delete. rewrite Hsel. cbn [eval]. rewrite Hsel.
  destruct (confirm_answer env =? 1); run_block; [|done].
  by destruct (fs_fault env (fs_remove (iteration env (fs.unify (selection st))))).
Qed.

(** What [c_delete] hands to the transition once the prompt was answered
    yes: the parent directories of the unified sources. *)
Lemma delete_invalidates (env : Env) (st : State) (settings : Settings) :
  selection st ≠ ∅ -> confirm_answer env = 1 ->
  invalidations (log (c_delete env st settings)) =
    [list_to_set (List.map dirname (iteration env (fs.unify (selection st))))].
Proof.
  intros Hsel Hyes. rewrite delete_with_selection, Hyes by done. reflexivity.
Qed.

(** ** The claims *)

(** C1.  At a concrete input, [/a/x] selected, the cursor on [/b] and [/b/x]
    on the disk, neither cut nor copy reaches the conflict check: the cursor
    lookup is not awaited, the first destination cannot be computed, and the
    handler raises with nothing reported and no state returned.  A create and
    a rename onto an existing name raise likewise. *)
Lemma conflict_check_is_not_reached :
  selection st_selected = {["/a/x"]}
  ∧ disk_exists env_conflict "/b/x" = true
  ∧ c_cut env_conflict st_selected settings0 = ([], Raise AttributeError)
  ∧ c_copy env_conflict st_selected settings0 = ([], Raise AttributeError)
  ∧ c_new env_conflict st_selected settings0 = ([], Raise AttributeError)
  ∧ c_rename env_conflict_rename st_selected settings0 = ([], Raise AttributeError).
Proof. repeat split; vm_compute; reflexivity. Qed.

(** C2 at a concrete input: the user confirms the delete of [/a/x] and the
    removal raises; the handler still completes by returning the new
    snapshot. *)
Lemma batch_fault_is_swallowed :
  fs_fault env_fault (fs_remove ["/a/x"]) = Some (OSError "ENOSPC")
  ∧ fs_calls (log (c_delete env_fault st_move settings0)) = [ev_fs (fs_remove ["/a/x"])]
  ∧ outcome (c_delete env_fault st_move settings0) =
      Return (state.forward env_fault st_move settings0
                (mk_kw None (Some {["/a"]}) None None None)).
Proof. repeat split; vm_compute; reflexivity. Qed.



(** C5.  At a concrete input, the cursor on [/r/a/f] and the answer [g],
    rename raises before it asks for a name: nothing is renamed, no
    transition is called and no buffer is closed. *)
Lemma rename_raises_before_renaming :
  disk_exists env_rename "/r/g" = false
  ∧ c_rename env_rename st_r settings0 = ([], Raise AttributeError)
  ∧ fs_calls (log (c_rename env_rename st_r settings0)) = []
  ∧ invalidations (log (c_rename env_rename st_r settings0)) = [].
Proof. repeat split; vm_compute; reflexivity. Qed.

(** C6.  When the confirmation prompt of a delete is answered by anything
    other than yes, the handler returns the input state, so its selection and
    expansion set are the ones it had, and it calls no filesystem verb and no
    state transition.  The prompt is asked exactly when something is
    selected. *)
Theorem delete_needs_confirmation (env : Env) (st : State) (settings : Settings) :
  confirm_answer env ≠ 1 ->
  (selection st ≠ ∅ -> outcome (c_delete env st settings) = Return st)
  ∧ (selection st ≠ ∅ <->
     ∃ msg choices default, ev_confirm msg choices default ∈ log (c_delete env st settings))
  ∧ fs_calls (log (c_delete env st settings)) = []
  ∧ invalidations (log (c_delete env st settings)) = []
  ∧ (∀ st', outcome (c_delete env st settings) = Return st' ->
       st' = st ∧ selection st' = selection st ∧ index st' = index st).
Proof.
  intros Hno. apply Z.eqb_neq in Hno.
  destruct (decide (selection st = ∅)) as [Hempty|Hsel].
  - rewrite (delete_raises_without_selection env st settings Hempty).
    split; [done|]. split; [|split; [done|split; [done|]]].
    + split; [done|]. by intros (? & ? & ? & ?%elem_of_nil).
    + by intros st' [=].
  - pose proof (delete_with_selection env st settings Hsel) as Hrun. cbv zeta in Hrun.
    rewrite Hno in Hrun. rewrite Hrun.
    split; [done|]. split; [|split; [done|split; [done|]]].
    + split; [|done]. intros _. do 3 eexists. by left.
    + by intros st' [= <-].
Qed.

(** C6 at a concrete input: [/a/x] is selected and the prompt is answered
    no. *)
Lemma delete_needs_confirmation_witness :
  outcome (c_delete env_conflict st_selected settings0) = Return st_selected
  ∧ fs_calls (log (c_delete env_conflict st_selected settings0)) = [].
Proof.
  assert (confirm_answer env_conflict ≠ 1) as Hno by (vm_compute; discriminate).
  assert (selection st_selected ≠ ∅) as Hsel by by_evaluation.
  destruct (delete_needs_confirmation env_conflict st_selected settings0 Hno)
    as (Hout & _ & Hfs & _).
  split; [exact (Hout Hsel) | exact Hfs].
Defined.

(** C7.  At a concrete input, nothing selected, delete raises: it returns
    no state and reports nothing.  Cut and copy at the same input print the
    warning and return the input state. *)
Lemma delete_nothing_selected_raises :
  selection st_plain = ∅
  ∧ c_delete env_nowhere st_plain settings0 = ([], Raise AttributeError)
  ∧ c_cut env_nowhere st_plain settings0 =
      ([ev_print "⚠️  -- {name}: nothing selected!" true], Return st_plain)
  ∧ c_copy env_nowhere st_plain settings0 =
      ([ev_print "⚠️  -- {name}: nothing selected!" true], Return st_plain).
Proof. repeat split; vm_compute; reflexivity. Qed.

(** C9.  At a concrete input, a five-row tree with the marks on rows 2 and
    9, the range query raises when it is first advanced, and so does the
    cursor query, although rows 1 to 4 resolve to nodes. *)
Lemma range_query_raises :
  _indices env_collapse st_sub true = inl TypeError
  ∧ _indices env_collapse st_sub false = inl TypeError
  ∧ resolve_range st_sub (mark_lt env_collapse - 1) (mark_gt env_collapse) =
      [dir "/a"; dir "/a/sub"; file "/a/sub/y"; dir "/b"]
  ∧ state.index st_sub 2 = Some (dir "/a/sub")
  ∧ state.index st_sub 5 = None.
Proof. repeat split; vm_compute; reflexivity. Qed.

(** C10.  At a concrete input, the cursor on the folder [/a] while [/a] and
    [/a/sub] are expanded, collapse raises: no path leaves the expansion set
    and no transition is called. *)
Lemma collapse_raises :
  state.index st_sub (cursor_row env_collapse - 1) = Some (dir "/a")
  ∧ c_collapse env_collapse st_sub settings0 = ([], Raise AttributeError)
  ∧ invalidations (log (c_collapse env_collapse st_sub settings0)) = []
  ∧ expansions (log (c_collapse env_collapse st_sub settings0)) = [].
Proof. repeat split; vm_compute; reflexivity. Qed.

(** ** Splitting and joining paths *)

Lemma string_app_cons (x : ascii) (a b : string) :
  String x a +:+ b = String x (a +:+ b).
Proof. reflexivity. Qed.

Lemma string_app_nil (b : string) : EmptyString +:+ b = b.
Proof. reflexivity. Qed.

Lemma string_app_assoc (a b c : string) : (a +:+ b) +:+ c = a +:+ (b +:+ c).
Proof.
  induction a as [|x a IH]; [done|].
  rewrite !string_app_cons. f_equal. exact IH.
Qed.

Lemma rsplit_no_sep (n : string) : contains sep n = false -> rsplit n = (EmptyString, n).
Proof.
  induction n as [|c r IH]; simpl; [done|].
  intros [Hc Hr]%orb_false_elim. rewrite (IH Hr). simpl.
  unfold is_sep. by rewrite Hc.
Qed.

Lemma rsplit_cons (c : ascii) (r : string) :
  rsplit (String c r) =
    (let '(h, t) := rsplit r in
     if is_empty h
     then if is_sep c then (String c EmptyString, t) else (EmptyString, String c t)
     else (String c h, t)).
Proof. reflexivity. Qed.

Lemma rsplit_app_no_sep (h n : string) :
  contains sep n = false -> rsplit (h +:+ n) = ((rsplit h).1, (rsplit h).2 +:+ n).
Proof.
  intros Hn. induction h as [|c r IH].
  - rewrite string_app_nil. by rewrite rsplit_no_sep.
  - rewrite string_app_cons, !rsplit_cons, IH.
    destruct (rsplit r) as [h' t']. simpl.
    destruct (is_empty h'); [destruct (is_sep c)|]; done.
Qed.

Lemma rsplit_ends_sep (h : string) : endswith_sep h = true -> rsplit h = (h, EmptyString).
Proof.
  induction h as [|c r IH]; [done|].
  destruct r as [|c' r'].
  - simpl. by intros ->.
  - intros Hr. change (endswith_sep (String c (String c' r'))) with
      (endswith_sep (String c' r')) in Hr.
    rewrite rsplit_cons. by rewrite (IH Hr).
Qed.

Lemma rsplit_tail_no_sep (p : string) : contains sep (rsplit p).2 = false.
Proof.
  induction p as [|c r IH]; [done|]. simpl.
  destruct (rsplit r) as [h t]. simpl in *.
  destruct (is_empty h); [|done].
  destruct (is_sep c) eqn:E; [done|]. simpl.
  unfold is_sep in E. by rewrite E.
Qed.

Lemma endswith_sep_app_sep (a : string) : endswith_sep (a +:+ String sep EmptyString) = true.
Proof.
  induction a as [|c r IH]; [done|].
  rewrite string_app_cons. destruct r; [done|].
  rewrite string_app_cons in *. exact IH.
Qed.

Lemma rstrip_app_sep (a : string) : rstrip (a +:+ String sep EmptyString) = rstrip a.
Proof.
  induction a as [|c r IH]; [done|].
  rewrite string_app_cons. simpl. by rewrite IH.
Qed.

Lemma rstrip_no_trailing (a : string) : endswith_sep a = false -> rstrip a = a.
Proof.
  induction a as [|c r IH]; [done|].
  destruct r as [|c' r'].
  - simpl. by intros ->.
  - intros Hr. change (endswith_sep (String c (String c' r'))) with
      (endswith_sep (String c' r')) in Hr.
    change (rstrip (String c (String c' r'))) with
      (let r0 := rstrip (String c' r') in
       if is_empty r0 && is_sep c then EmptyString else String c r0).
    by rewrite (IH Hr).
Qed.

Lemma all_sep_app (a b : string) : all_sep (a +:+ b) = all_sep a && all_sep b.
Proof.
  induction a as [|c r IH]; [done|].
  rewrite string_app_cons. simpl. rewrite IH. by rewrite andb_assoc.
Qed.

Lemma all_sep_ends_sep (a : string) :
  a ≠ EmptyString -> all_sep a = true -> endswith_sep a = true.
Proof.
  induction a as [|c r IH]; [done|]. intros _. simpl.
  intros [Hc Hr]%andb_true_iff.
  destruct r; [done|]. by apply IH.
Qed.

Lemma rstrip_ends (h : string) : endswith_sep (rstrip h) = false.
Proof.
  induction h as [|c r IH]; [done|]. simpl.
  destruct (rstrip r) as [|c' r'] eqn:E; simpl.
  - destruct (is_sep c) eqn:Ec; [done|]. simpl. exact Ec.
  - exact IH.
Qed.

(** [dirname] always returns a clean directory path. *)
Lemma dirname_clean (p : string) : clean_dir (dirname p) = true.
Proof.
  unfold clean_dir, dirname.
  destruct (is_empty (rsplit p).1) eqn:Ee; simpl.
  - destruct (rsplit p).1; [done | discriminate].
  - destruct (all_sep (rsplit p).1) eqn:Ea; simpl.
    + rewrite Ea. by rewrite orb_true_r.
    + by rewrite rstrip_ends.
Qed.

Lemma basename_join (parent name : string) :
  contains sep name = false -> basename (join parent name) = name.
Proof.
  intros Hn. unfold basename, join.
  assert (startswith_sep name = false) as ->.
  { destruct name as [|c r]; [done|]. simpl in *.
    apply orb_false_elim in Hn as [Hc _]. unfold is_sep. exact Hc. }
  destruct parent as [|c r] eqn:Ep.
  - simpl. by rewrite rsplit_no_sep.
  - rewrite <- Ep. assert (is_empty parent = false) as -> by by rewrite Ep.
    simpl. destruct (endswith_sep parent) eqn:Ee.
    + rewrite rsplit_app_no_sep, rsplit_ends_sep by done. done.
    + change (parent +:+ String sep name) with
        (parent +:+ (String sep EmptyString +:+ name)).
      rewrite <- string_app_assoc, rsplit_app_no_sep by done.
      by rewrite rsplit_ends_sep by apply endswith_sep_app_sep.
Qed.

Lemma dirname_join (parent name : string) :
  contains sep name = false -> clean_dir parent = true ->
  dirname (join parent name) = parent.
Proof.
  intros Hn Hclean. unfold dirname, join.
  assert (startswith_sep name = false) as ->.
  { destruct name as [|c r]; [done|]. simpl in *.
    apply orb_false_elim in Hn as [Hc _]. unfold is_sep. exact Hc. }
  destruct parent as [|c r] eqn:Ep.
  - simpl. by rewrite rsplit_no_sep.
  - rewrite <- Ep in *. assert (is_empty parent = false) as Hne by by rewrite Ep.
    rewrite Hne. simpl. destruct (endswith_sep parent) eqn:Ee.
    + rewrite rsplit_app_no_sep, rsplit_ends_sep by done. simpl.
      unfold clean_dir in Hclean. rewrite Ee in Hclean. simpl in Hclean.
      rewrite Hclean, Hne. done.
    + change (parent +:+ String sep name) with
        (parent +:+ (String sep EmptyString +:+ name)).
      rewrite <- string_app_assoc, rsplit_app_no_sep by done.
      rewrite rsplit_ends_sep by apply endswith_sep_app_sep. simpl.
      assert (all_sep (parent +:+ String sep EmptyString) = false) as ->.
      { rewrite all_sep_app. destruct (all_sep parent) eqn:Ea; [|done].
        rewrite all_sep_ends_sep in Ee; [done | by rewrite Ep | done]. }
      assert (is_empty (parent +:+ String sep EmptyString) = false) as ->.
      { by rewrite Ep. }
      simpl. by rewrite rstrip_app_sep, rstrip_no_trailing.
Qed.

(** The directory a cut, a copy or a create targets. *)
Lemma target_dir_clean (node : Node) :
  state.is_dir node = false ->
  clean_dir (if state.is_dir node then path node else dirname (path node)) = true.
Proof. intros ->. apply dirname_clean. Qed.

(** X1. The destination of a cut or a copy keeps the name of its source, and
    it lies directly in the target directory (the cursor node when it is a
    folder, else the directory that holds it) whenever that directory path
    is clean, which it always is when the cursor is on a file. *)
Theorem find_dest_keeps_name_in_target (src : string) (node : Node) :
  let parent := if state.is_dir node then path node else dirname (path node) in
  basename (_find_dest src node) = basename src
  ∧ (clean_dir parent = true -> dirname (_find_dest src node) = parent)
  ∧ (state.is_dir node = false -> dirname (_find_dest src node) = dirname (path node)).
Proof.
  intros parent. unfold _find_dest. fold parent.
  pose proof (rsplit_tail_no_sep src) as Hname. fold (basename src) in Hname.
  split; [by apply basename_join|]. split.
  - intros Hclean. by apply dirname_join.
  - intros Hfile. pose proof (target_dir_clean node Hfile) as Hclean.
    fold parent in Hclean. rewrite dirname_join by done.
    unfold parent. by rewrite Hfile.
Qed.

(** X1 at a concrete input: [/a/x] goes to the folder [/b], or beside the
    file [/b/x]. *)
Lemma find_dest_keeps_name_in_target_witness :
  basename (_find_dest "/a/x" (dir "/b")) = "x"
  ∧ dirname (_find_dest "/a/x" (dir "/b")) = "/b"
  ∧ dirname (_find_dest "/a/x" (file "/b/x")) = "/b".
Proof.
  destruct (find_dest_keeps_name_in_target "/a/x" (dir "/b")) as (Hname & Hdir & _).
  destruct (find_dest_keeps_name_in_target "/a/x" (file "/b/x")) as (_ & _ & Hfile).
  split; [exact Hname|]. split.
  - apply Hdir. reflexivity.
  - apply Hfile. reflexivity.
Defined.


(** ** Display paths *)

Lemma escape_newlines_single_line (s : string) :
  contains "010"%char (escape_newlines s) = false.
Proof.
  induction s as [|c r IH]; [done|]. simpl.
  destruct (Ascii.eqb c "010"%char) eqn:E; simpl.
  - exact IH.
  - by rewrite E.
Qed.

Lemma escape_newlines_id (s : string) :
  contains "010"%char s = false -> escape_newlines s = s.
Proof.
  induction s as [|c r IH]; [done|]. simpl.
  intros [Hc Hr]%orb_false_elim. rewrite Hc. f_equal. by apply IH.
Qed.

Lemma escape_newlines_app (a b : string) :
  escape_newlines (a +:+ b) = escape_newlines a +:+ escape_newlines b.
Proof.
  induction a as [|c r IH]; [done|].
  rewrite string_app_cons. simpl. rewrite IH.
  by destruct (Ascii.eqb c "010"%char).
Qed.

(** X2. A display path never holds a line break, whatever [relpath]
    returns: it is the relative path itself when that has none, and where
    the relative path has a line break the display path has a backslash
    followed by [n], the text on either side being escaped the same way. *)
Theorem display_path_single_line (env : Env) (p : string) (st : State) :
  contains "010"%char (_display_path env p st) = false
  ∧ (contains "010"%char (relpath env p (path (root st))) = false ->
     _display_path env p st = relpath env p (path (root st)))
  ∧ (∀ a b, relpath env p (path (root st)) = a +:+ nl +:+ b ->
       _display_path env p st = escape_newlines a +:+ "\n" +:+ escape_newlines b).
Proof.
  unfold _display_path. split; [|split].
  - apply escape_newlines_single_line.
  - apply escape_newlines_id.
  - intros a b ->. by rewrite !escape_newlines_app.
Qed.

(** X2 at a concrete input: a file name with a line break in it. *)
Lemma display_path_single_line_witness :
  _display_path env_conflict ("/a/x" +:+ nl +:+ "y") st_selected = "a/x\ny"
  ∧ _display_path env_conflict "/a/x" st_selected = "a/x".
Proof.
  destruct (display_path_single_line env_conflict ("/a/x" +:+ nl +:+ "y") st_selected)
    as (_ & _ & Hbreak).
  destruct (display_path_single_line env_conflict "/a/x" st_selected) as (_ & Hid & _).
  split.
  - rewrite (Hbreak "a/x" "y"); reflexivity.
  - rewrite Hid; reflexivity.
Defined.

(** ** Cut and copy *)

(** X5. With an empty selection a cut or a copy prints the nothing-selected
    warning, calls nothing else and returns the input state, wherever the
    cursor is: the node under the cursor is no fallback source. *)
Theorem operation_needs_selection (env : Env) (st : State) (settings : Settings) :
  selection st = ∅ ->
  c_cut env st settings =
    ([ev_print "⚠️  -- {name}: nothing selected!" true], Return st)
  ∧ c_copy env st settings =
    ([ev_print "⚠️  -- {name}: nothing selected!" true], Return st).
Proof.
  intros H. unfold c_cut, c_copy. by rewrite !operation_warns.
Qed.

(** X5 at a concrete input: nothing selected with the cursor on [/b]. *)
Lemma operation_needs_selection_witness :
  c_cut env_conflict st_plain settings0 =
    ([ev_print "⚠️  -- {name}: nothing selected!" true], Return st_plain)
  ∧ c_copy env_conflict st_plain settings0 =
    ([ev_print "⚠️  -- {name}: nothing selected!" true], Return st_plain).
Proof.
  apply (operation_needs_selection env_conflict st_plain settings0). reflexivity.
Defined.

(** ** Delete *)

(** X7. With a non-empty selection, delete never looks at the cursor: the
    handler does the same wherever the cursor is, so the node under the
    cursor is not removed unless it is selected. *)
Theorem delete_ignores_cursor_when_selected (env : Env) (st : State)
    (settings : Settings) (row : Z) :
  selection st ≠ ∅ ->
  c_delete (with_cursor env row) st settings = c_delete env st settings.
Proof.
  intros Hsel. by rewrite !delete_with_selection.
Qed.

(** X7 at a concrete input: [/a/x] and [/c/y] are selected and the cursor
    moves from [/b] to [/]. *)
Lemma delete_ignores_cursor_when_selected_witness :
  c_delete (with_cursor env_two 1) st_two settings0 = c_delete env_two st_two settings0.
Proof.
  apply delete_ignores_cursor_when_selected. by_evaluation.
Defined.

(** X21. A confirmed delete of a non-empty selection asks once, passes the
    unified paths to one [remove] call, hands the transition the parent
    directories of exactly those paths, closes the buffers of the whole
    selection, descendants that unification dropped included, does not
    redraw, and returns the new snapshot whether or not [remove] raised. *)
Theorem confirmed_delete_runs (env : Env) (st : State) (settings : Settings) :
  selection st ≠ ∅ -> confirm_answer env = 1 ->
  let unified := iteration env (fs.unify (selection st)) in
  let paths : gset string := list_to_set (List.map dirname unified) in
  let kw := mk_kw None (Some paths) None None None in
  let new_state := state.forward env st settings kw in
  (∃ prompt,
     c_delete env st settings =
       ([ev_confirm prompt ("&Yes" +:+ nl +:+ "&No" +:+ nl) 2;
         ev_fs (fs_remove unified); ev_forward kw; ev_kill_buffers (selection st)],
        Return new_state))
  ∧ (iterates_members env ->
     (∀ q, q ∈ unified <->
           q ∈ selection st ∧ ∀ r, r ∈ selection st -> fs.is_parent r q = false)
     ∧ (∀ p, p ∈ paths <-> ∃ q, q ∈ fs.unify (selection st) ∧ p = dirname q)).
Proof.
  intros Hsel Hyes unified paths kw new_state. split.
  - eexists. rewrite delete_with_selection, Hyes by done. reflexivity.
  - intros Hiter.
    assert (∀ q, q ∈ unified <-> q ∈ fs.unify (selection st)) as Hmem.
    { intros q. unfold unified. by rewrite (Hiter _), elem_of_elements. }
    split.
    + intros q. by rewrite Hmem, elem_of_unify.
    + intros p. unfold paths. rewrite elem_of_list_to_set, list_elem_of_fmap. split.
      * intros (q & -> & Hq%Hmem). by exists q.
      * intros (q & Hq%Hmem & ->). by exists q.
Qed.

(** X21 at a concrete input: the folder [/a] and its file [/a/x] are both
    selected. *)
Lemma confirmed_delete_runs_witness :
  fs_calls (log (c_delete env_two st_nested settings0)) = [ev_fs (fs_remove ["/a"])]
  ∧ invalidations (log (c_delete env_two st_nested settings0)) = [{["/"]}]
  ∧ ev_kill_buffers {["/a"; "/a/x"]} ∈ log (c_delete env_two st_nested settings0).
Proof.
  assert (selection st_nested ≠ ∅) as Hsel by by_evaluation.
  destruct (confirmed_delete_runs env_two st_nested settings0 Hsel eq_refl)
    as [(prompt & Hrun) _].
  rewrite Hrun. split; [vm_compute; reflexivity|]. split; [vm_compute; reflexivity|].
  do 3 right. left.
Defined.

(** ** What the batch handlers leave alone *)







(** ** Handlers that only change the view *)

(** X12. Clear empties the selection and keeps the expansion set and both
    flags; a cut or a copy issued on the state it returns prints the
    nothing-selected warning and touches nothing, wherever the cursor is. *)
Theorem clear_then_nothing_selected (env env' : Env) (st : State)
    (settings settings' : Settings) :
  ∃ st', outcome (c_clear env st settings) = Return st'
    ∧ selection st' = ∅
    ∧ index st' = index st
    ∧ show_hidden st' = show_hidden st
    ∧ follow st' = follow st
    ∧ c_cut env' st' settings' =
        ([ev_print "⚠️  -- {name}: nothing selected!" true], Return st')
    ∧ c_copy env' st' settings' =
        ([ev_print "⚠️  -- {name}: nothing selected!" true], Return st').
Proof.
  eexists. split; [reflexivity|]. do 4 (split; [reflexivity|]). split.
  - unfold c_cut. by apply operation_warns.
  - unfold c_copy. by apply operation_warns.
Qed.


(** X17. Refresh, hidden, follow, clear, select, collapse and the primary
    action never call a filesystem verb, whatever the state and whatever the
    collaborators answer. *)
Theorem view_handlers_never_touch_disk (env : Env) (st : State) (settings : Settings)
    (is_visual : bool) :
  fs_calls (log (c_refresh env st settings)) = []
  ∧ fs_calls (log (c_hidden env st settings)) = []
  ∧ fs_calls (log (c_follow env st settings)) = []
  ∧ fs_calls (log (c_clear env st settings)) = []
  ∧ fs_calls (log (c_select env st settings is_visual)) = []
  ∧ fs_calls (log (c_collapse env st settings)) = []
  ∧ fs_calls (core_log (fst (c_primary env st settings))) = [].
Proof.
  do 4 (split; [reflexivity|]). split; [|split; reflexivity].
  by rewrite select_raises.
Qed.

(** ** Calls that are never awaited *)

(** X20. Because the cursor lookup is called without [await], the primary
    action, collapse, create and rename raise on every call before they call
    anything; delete raises whenever nothing is selected, and cut and copy
    whenever something is.  Because the editor calls of the row query are not
    awaited either, select raises on every call. *)
Theorem unawaited_calls_make_handlers_raise (env : Env) (st : State)
    (settings : Settings) :
  c_primary env st settings = ([], Raise AttributeError)
  ∧ c_collapse env st settings = ([], Raise AttributeError)
  ∧ c_new env st settings = ([], Raise AttributeError)
  ∧ c_rename env st settings = ([], Raise AttributeError)
  ∧ (selection st = ∅ -> c_delete env st settings = ([], Raise AttributeError))
  ∧ (selection st ≠ ∅ -> iterates_members env ->
     c_cut env st settings = ([], Raise AttributeError)
     ∧ c_copy env st settings = ([], Raise AttributeError))
  ∧ (∀ is_visual, c_select env st settings is_visual = ([], Raise TypeError)).
Proof.
  do 4 (split; [reflexivity|]). split; [|split].
  - apply delete_raises_without_selection.
  - intros Hsel Hiter. unfold c_cut, c_copy. by rewrite !operation_raises.
  - apply select_raises.
Qed.

Lemma fixture_iterates_members (on_disk : string -> bool) (row : Z) (answer : string)
    (confirm : Z) (fault : fs_call -> option exn) :
  iterates_members (mk_env on_disk row answer confirm fault).
Proof. intros s. reflexivity. Qed.

(** X20 at concrete inputs: nothing selected for delete, [/a/x] and [/c/y]
    selected for cut. *)
Lemma unawaited_calls_make_handlers_raise_witness :
  c_delete env_two st_none settings0 = ([], Raise AttributeError)
  ∧ c_cut env_two st_two settings0 = ([], Raise AttributeError).
Proof.
  split.
  - destruct (unawaited_calls_make_handlers_raise env_two st_none settings0)
      as (_ & _ & _ & _ & Hdel & _).
    apply Hdel. reflexivity.
  - destruct (unawaited_calls_make_handlers_raise env_two st_two settings0)
      as (_ & _ & _ & _ & _ & Hcut & _).
    apply Hcut; [by_evaluation | apply fixture_iterates_members].
Defined.

